(** * A shallow embedding of the chat service of converse-lite (src/main.py)

    The module-level dict [conversation_histories] maps a session id to a
    Python list object.  Lists are shared mutable objects: the list found by
    [conversation_histories.get(session_id, [])] is the very object held in the
    dict, so [history.append(...)] mutates the stored transcript in place.  We
    therefore model a heap of list objects (locations [N]) and the dict as a
    map from session ids to locations. *)

From stdpp Require Import base gmap strings list pretty.
From Stdlib Require Import Ascii.


(** ** Data *)

(** [class Message(BaseModel)] *)
Record Message := mkMessage { role : string; content : string }.

(** [class ChatRequest(BaseModel)]: the raw JSON body.  A field that is
    missing from the body is [None]; pydantic rejects such a body before the
    handler runs.  [model_name] is optional. *)
Record ChatRequest := mkChatRequest {
  session_id : option string;
  message : option string;
  model_name : option string
}.

(** What the caller observes: a 200 [ChatResponse] or an HTTP error. *)
Inductive response :=
| ChatResponse (reply : string) (conversation : list Message)
| HTTPError (status_code : Z) (detail : string).

(** Locations of Python list objects. *)
Abbreviation loc := N (only parsing).

(** The process state: the dict [conversation_histories], the heap of list
    objects, and the next free location. *)
Record store := mkStore {
  conversation_histories : gmap string loc;
  heap : gmap loc (list Message);
  next_loc : loc
}.

Definition empty_store : store := mkStore ∅ ∅ 0%N.

(** The external model [model.chat(context)]: an opaque collaborator that
    either returns a reply or raises an exception with a message. *)
Inductive model_outcome :=
| Reply (text : string)
| Raise (cause : string).

Definition model_t := string -> model_outcome.

(** ** Exceptions *)

(** The exceptions that can travel through [chat_endpoint]: the one raised by
    [model.chat], and [HTTPException(status_code, detail)]. *)
Inductive exc :=
| ModelException (msg : string)
| HTTPException (status_code : Z) (detail : string).

(** [str(e)]: for a Starlette [HTTPException] this is
    [f"{self.status_code}: {self.detail}"]. *)
Definition str_exc (e : exc) : string :=
  match e with
  | ModelException m => m
  | HTTPException s d => pretty s +:+ ": "%string +:+ d
  end.

(** ** A state and exception monad

    Python keeps the mutations done before an exception, so a failing
    computation still returns the state it reached. *)
Definition M (A : Type) := store -> store * (A + exc).

Definition ret {A} (a : A) : M A := fun st => (st, inl a).
Definition bind {A B} (m : M A) (k : A -> M B) : M B :=
  fun st => match m st with
            | (st', inl a) => k a st'
            | (st', inr e) => (st', inr e)
            end.
Definition raise {A} (e : exc) : M A := fun st => (st, inr e).
(** [try: m except Exception as e: h e] *)
Definition try_except {A} (m : M A) (h : exc -> M A) : M A :=
  fun st => match m st with
            | (st', inl a) => (st', inl a)
            | (st', inr e) => h e st'
            end.

Notation "x <- m ;; k" := (bind m (fun x => k))
  (at level 100, m at next level, right associativity).
Notation "m ;;; k" := (bind m (fun _ => k))
  (at level 100, right associativity).

(** ** Primitive operations on the store *)

(** [[]]: allocate a fresh empty list object. *)
Definition new_list : M loc :=
  fun st => (mkStore (conversation_histories st)
                     (<[next_loc st := []]> (heap st))
                     (N.succ (next_loc st)), inl (next_loc st)).

(** Contents of a list object. *)
Definition read_list (l : loc) : M (list Message) :=
  fun st => (st, inl (default [] (heap st !! l))).

(** [l.append(m)], in place. *)
Definition list_append (l : loc) (m : Message) : M unit :=
  fun st => (mkStore (conversation_histories st)
                     (<[l := default [] (heap st !! l) ++ [m]]> (heap st))
                     (next_loc st), inl tt).

(** [conversation_histories.get(sid, dflt)] *)
Definition dict_get (sid : string) (dflt : loc) : M loc :=
  fun st => (st, inl (default dflt (conversation_histories st !! sid))).

(** [conversation_histories[sid] = l] *)
Definition dict_set (sid : string) (l : loc) : M unit :=
  fun st => (mkStore (<[sid := l]> (conversation_histories st))
                     (heap st) (next_loc st), inl tt).

(** [model.chat(context)] *)
Definition model_chat (model : model_t) (context : string) : M string :=
  fun st => match model context with
            | Reply r => (st, inl r)
            | Raise c => (st, inr (ModelException c))
            end.

(** ** The handler *)

Definition nl : string := String (ascii_of_nat 10) EmptyString.

(** [f"{msg.role}: {msg.content}"] *)
Definition render (msg : Message) : string := role msg +:+ ": "%string +:+ content msg.

(** ["\n".join([f"{msg.role}: {msg.content}" for msg in history])] *)
Definition build_context (history : list Message) : string :=
  String.concat nl (map render history).

(** The body of [chat_endpoint], inside its outer [try]. *)
Definition chat_body (model : model_t) (sid user_message : string)
    (mname : option string) : M response :=
  dflt <- new_list ;;
  history <- dict_get sid dflt ;;
  list_append history (mkMessage "user"%string user_message) ;;;
  (* if model_name: pass *)
  (match mname with Some _ => ret tt | None => ret tt end) ;;;
  hist <- read_list history ;;
  let context := build_context hist in
  reply_text <- try_except (model_chat model context)
     (fun e => raise (HTTPException 500 ("Model inference error: "%string +:+ str_exc e))) ;;
  list_append history (mkMessage "assistant"%string reply_text) ;;;
  dict_set sid history ;;;
  conv <- read_list history ;;
  ret (ChatResponse reply_text conv).

(** [POST /chat]: request validation by pydantic (422 when a required
    field is missing), then the handler with its outer
    [except Exception as e: raise HTTPException(500, str(e))]; an uncaught
    [HTTPException] becomes the HTTP error response. *)
Definition chat_endpoint (model : model_t) (st : store) (req : ChatRequest)
    : store * response :=
  match session_id req, message req with
  | Some sid, Some msg =>
      let handler :=
        try_except (chat_body model sid msg (model_name req))
          (fun e => raise (HTTPException 500 (str_exc e))) in
      match handler st with
      | (st', inl r) => (st', r)
      | (st', inr (HTTPException s d)) => (st', HTTPError s d)
      | (st', inr (ModelException m)) => (st', HTTPError 500 m)
      end
  | _, _ => (st, HTTPError 422 "Field required"%string)
  end.

(** ** Observations *)

(** The transcript the store holds for a session ([[]] when it has none). *)
Definition session_transcript (st : store) (sid : string) : list Message :=
  match conversation_histories st !! sid with
  | Some l => default [] (heap st !! l)
  | None => []
  end.

(** What any later request can observe: each session id with the contents
    of its list. *)
Definition view (st : store) : gmap string (list Message) :=
  omap (fun l => heap st !! l) (conversation_histories st).

(** Stores the program can reach: every session points below [next_loc], and
    no two sessions share a list object. *)
Definition wf (st : store) : bool :=
  bool_decide (map_Forall (fun s l =>
      (l < next_loc st)%N /\
      map_Forall (fun s' l' => s = s' \/ l <> l') (conversation_histories st))
    (conversation_histories st)).

(** The user turn and the assistant turn. *)
Definition user_turn (m : string) : Message := mkMessage "user"%string m.
Definition assistant_turn (m : string) : Message := mkMessage "assistant"%string m.

(** A session whose list lies below [next_loc]: the list allocated by
    [[]] at the start of the handler is never the session's own list. *)
Definition session_ok (st : store) (sid : string) : Prop :=
  forall l, conversation_histories st !! sid = Some l -> (l < next_loc st)%N.

(** ** [POST /upload] *)

(** [UploadFile]: its name, and what [await file.read()] does (the bytes,
    or an exception with its message). *)
Record UploadFile := mkUploadFile {
  filename : string;
  file_read : list Byte.byte + string
}.

Inductive upload_response :=
| UploadOk (filename : string) (size : Z) (message : string)
| UploadError (status_code : Z) (detail : string).

(** [upload_media]: [session_id] and [file] are required form fields; the
    framework treats an empty form value as missing, so [session_id=""] is
    rejected with a 422 like an absent one.  The handler never touches
    [conversation_histories]. *)
Definition upload_media (st : store) (session_id : option string)
    (file : option UploadFile) : store * upload_response :=
  match session_id, file with
  | Some s, Some f =>
      if String.eqb s "" then (st, UploadError 422 "Field required"%string) else
      match file_read f with
      | inl content =>
          (st, UploadOk (filename f) (Z.of_nat (length content))
                 "Media uploaded successfully."%string)
      | inr e => (st, UploadError 500 ("Upload failed: " +:+ e))
      end
  | _, _ => (st, UploadError 422 "Field required"%string)
  end.

(** ** Sequences of requests *)

(** One turn of a client: its message, its [model_name], and how the model
    behaves on that call. *)
Record turn_input := mkTurnInput {
  ti_message : string;
  ti_model_name : option string;
  ti_model : model_t
}.

(** Requests on one session, one after the other. *)
Fixpoint run_chat (st : store) (sid : string) (turns : list turn_input)
    : store * list response :=
  match turns with
  | [] => (st, [])
  | t :: ts =>
      let (st1, r) := chat_endpoint (ti_model t) st
                        (mkChatRequest (Some sid) (Some (ti_message t)) (ti_model_name t)) in
      let (st2, rs) := run_chat st1 sid ts in
      (st2, r :: rs)
  end.

Definition is_success (r : response) : bool :=
  match r with ChatResponse _ _ => true | HTTPError _ _ => false end.

(** The context format in the words of the spec: ["{role}: {content}"] for
    each turn, in order, joined by newline characters. *)
Fixpoint spec_context (ts : list Message) : string :=
  match ts with
  | [] => ""%string
  | [t] => role t +:+ ": " +:+ content t
  | t :: ts' => (role t +:+ ": " +:+ content t) +:+ nl +:+ spec_context ts'
  end.

(** The spec's scenario: session ["s1"] after ["hello"] was answered with
    ["hi there"]. *)
Definition s1_request (msg : string) : ChatRequest :=
  mkChatRequest (Some "s1"%string) (Some msg) None.

Definition hello_store : store :=
  fst (chat_endpoint (fun _ => Reply "hi there"%string) empty_store
         (s1_request "hello"%string)).

(** Three turns of a client, each answered by the model. *)
Definition sample_turns : list turn_input :=
  [mkTurnInput "hello" None (fun _ => Reply "hi there");
   mkTurnInput "how are you" (Some "gpt") (fun c => Reply c);
   mkTurnInput "bye" None (fun _ => Reply "bye")]%string.

(** ** Any interleaving of requests *)

(** A request to either endpoint. *)
Inductive op :=
| OpChat (model : model_t) (req : ChatRequest)
| OpUpload (sid : option string) (file : option UploadFile).

Definition step_op (st : store) (o : op) : store :=
  match o with
  | OpChat model req => fst (chat_endpoint model st req)
  | OpUpload sid file => fst (upload_media st sid file)
  end.

Definition run_ops (st : store) (ops : list op) : store := fold_left step_op ops st.

(** The turns a request leaves in its session's list when that list already
    exists: the user turn, then the assistant turn if the model replied. *)
Definition turn_record (t : turn_input) (r : response) : list Message :=
  user_turn (ti_message t) ::
  match r with
  | ChatResponse reply _ => [assistant_turn reply]
  | HTTPError _ _ => []
  end.

(** ** Lemmas about the handler *)

Lemma lookup_default_insert (h : gmap loc (list Message)) l v :
  default [] (<[l := v]> h !! l) = v.
Proof. by rewrite lookup_insert_eq. Qed.

(** One valid request, unfolded: the fresh list [l0] is allocated, [h] is the
    list the session uses, [hist] its contents after the user turn. *)
Lemma chat_endpoint_unfold model st sid msg mn :
  let l0 := next_loc st in
  let heap1 := <[l0 := []]> (heap st) in
  let h := default l0 (conversation_histories st !! sid) in
  let hist := default [] (heap1 !! h) ++ [user_turn msg] in
  let heap2 := <[h := hist]> heap1 in
  chat_endpoint model st (mkChatRequest (Some sid) (Some msg) mn) =
  match model (build_context hist) with
  | Reply r =>
      (mkStore (<[sid := h]> (conversation_histories st))
               (<[h := hist ++ [assistant_turn r]]> heap2) (N.succ l0),
       ChatResponse r (hist ++ [assistant_turn r]))
  | Raise c =>
      (mkStore (conversation_histories st) heap2 (N.succ l0),
       HTTPError 500 ("500: Model inference error: " +:+ c))
  end.
Proof.
  cbv zeta. unfold chat_endpoint, chat_body, try_except, bind, ret, raise,
    new_list, dict_get, list_append, read_list, model_chat, dict_set; simpl.
  destruct mn; simpl; rewrite ?lookup_default_insert;
    destruct (model _); simpl; rewrite ?lookup_default_insert; reflexivity.
Qed.

Lemma chat_endpoint_invalid model st req :
  (session_id req = None \/ message req = None) ->
  chat_endpoint model st req = (st, HTTPError 422 "Field required"%string).
Proof.
  unfold chat_endpoint.
  destruct (session_id req), (message req); intuition congruence.
Qed.

Lemma wf_spec st :
  wf st = true ->
  forall s l, conversation_histories st !! s = Some l ->
    (l < next_loc st)%N /\
    forall s' l', conversation_histories st !! s' = Some l' -> s = s' \/ l <> l'.
Proof.
  unfold wf. rewrite bool_decide_eq_true. intros Hf s l Hs.
  destruct (Hf s l Hs) as [Hlt Hinj]. split; [done|].
  intros s' l' Hs'. exact (Hinj s' l' Hs').
Qed.

Lemma wf_session_ok st sid : wf st = true -> session_ok st sid.
Proof. intros Hwf l Hl. exact (proj1 (wf_spec st Hwf sid l Hl)). Qed.

(** Under [session_ok], the list the handler appends to holds the session's
    transcript. *)
Lemma prior_contents st sid :
  session_ok st sid ->
  default [] (<[next_loc st := []]> (heap st)
                !! default (next_loc st) (conversation_histories st !! sid))
  = session_transcript st sid.
Proof.
  intros Hok. unfold session_transcript.
  destruct (conversation_histories st !! sid) as [l|] eqn:Hl; simpl.
  - rewrite lookup_insert_ne; [done|]. specialize (Hok l Hl). lia.
  - by rewrite lookup_insert_eq.
Qed.

(** The outcome of a valid request, in terms of the session's transcript. *)
Lemma chat_endpoint_session model st sid msg mn :
  session_ok st sid ->
  let T := session_transcript st sid ++ [user_turn msg] in
  match model (build_context T) with
  | Reply r =>
      chat_endpoint model st (mkChatRequest (Some sid) (Some msg) mn) =
      (mkStore (<[sid := default (next_loc st) (conversation_histories st !! sid)]>
                  (conversation_histories st))
               (<[default (next_loc st) (conversation_histories st !! sid)
                   := T ++ [assistant_turn r]]>
                  (<[next_loc st := []]> (heap st)))
               (N.succ (next_loc st)),
       ChatResponse r (T ++ [assistant_turn r]))
  | Raise c =>
      chat_endpoint model st (mkChatRequest (Some sid) (Some msg) mn) =
      (mkStore (conversation_histories st)
               (<[default (next_loc st) (conversation_histories st !! sid) := T]>
                  (<[next_loc st := []]> (heap st)))
               (N.succ (next_loc st)),
       HTTPError 500 ("500: Model inference error: " +:+ c))
  end.
Proof.
  intros Hok T. rewrite chat_endpoint_unfold. cbv zeta.
  rewrite (prior_contents st sid Hok). fold T.
  destruct (model (build_context T)); [|done].
  by rewrite insert_insert_eq.
Qed.

Lemma chat_success_step model st sid msg mn r :
  session_ok st sid ->
  model (build_context (session_transcript st sid ++ [user_turn msg])) = Reply r ->
  let T := session_transcript st sid ++ [user_turn msg; assistant_turn r] in
  snd (chat_endpoint model st (mkChatRequest (Some sid) (Some msg) mn))
    = ChatResponse r T /\
  session_transcript (fst (chat_endpoint model st (mkChatRequest (Some sid) (Some msg) mn))) sid
    = T /\
  session_ok (fst (chat_endpoint model st (mkChatRequest (Some sid) (Some msg) mn))) sid.
Proof.
  intros Hok Hm T.
  pose proof (chat_endpoint_session model st sid msg mn Hok) as Hs.
  cbv zeta in Hs. rewrite Hm in Hs. rewrite Hs; simpl.
  assert (Happ : (session_transcript st sid ++ [user_turn msg]) ++ [assistant_turn r] = T)
    by (unfold T; by rewrite <- app_assoc).
  rewrite Happ. split; [done|]. split.
  - unfold session_transcript; simpl. by rewrite !lookup_insert_eq.
  - intros l; simpl. rewrite lookup_insert_eq. intros [= <-].
    destruct (conversation_histories st !! sid) eqn:E; simpl;
      [specialize (Hok _ E)|]; lia.
Qed.

Lemma chat_failure_step model st sid msg mn c :
  session_ok st sid ->
  model (build_context (session_transcript st sid ++ [user_turn msg])) = Raise c ->
  let st' := fst (chat_endpoint model st (mkChatRequest (Some sid) (Some msg) mn)) in
  snd (chat_endpoint model st (mkChatRequest (Some sid) (Some msg) mn))
    = HTTPError 500 ("500: Model inference error: " +:+ c) /\
  conversation_histories st' = conversation_histories st /\
  heap st' = <[default (next_loc st) (conversation_histories st !! sid)
                 := session_transcript st sid ++ [user_turn msg]]>
               (<[next_loc st := []]> (heap st)) /\
  next_loc st' = N.succ (next_loc st).
Proof.
  intros Hok Hm st'. unfold st'.
  pose proof (chat_endpoint_session model st sid msg mn Hok) as Hs.
  cbv zeta in Hs. rewrite Hm in Hs. by rewrite Hs.
Qed.

Lemma view_fresh_update st sid v v0 n :
  wf st = true -> conversation_histories st !! sid = None ->
  view (mkStore (conversation_histories st)
          (<[next_loc st := v]> (<[next_loc st := v0]> (heap st))) n) = view st.
Proof.
  intros Hwf _. apply map_eq. intros k. unfold view; simpl.
  rewrite !lookup_omap.
  destruct (conversation_histories st !! k) as [lk|] eqn:E; simpl; [|done].
  destruct (wf_spec st Hwf k lk E) as [Hlt _].
  rewrite !lookup_insert_ne; [done | lia | lia].
Qed.

Lemma view_existing_update st sid l v v0 n :
  wf st = true -> conversation_histories st !! sid = Some l ->
  view (mkStore (conversation_histories st)
          (<[l := v]> (<[next_loc st := v0]> (heap st))) n)
  = <[sid := v]> (view st).
Proof.
  intros Hwf Hl. apply map_eq. intros k. unfold view; simpl.
  destruct (decide (k = sid)) as [->|Hne].
  - rewrite lookup_insert_eq, lookup_omap, Hl; simpl. by rewrite lookup_insert_eq.
  - rewrite lookup_insert_ne by done. rewrite !lookup_omap.
    destruct (conversation_histories st !! k) as [lk|] eqn:E; simpl; [|done].
    destruct (wf_spec st Hwf k lk E) as [Hlt Hinj].
    destruct (Hinj sid l Hl) as [?|Hneq]; [congruence|].
    rewrite !lookup_insert_ne; [done | lia | congruence].
Qed.

(** The list of session [A] is neither the fresh list nor the list of any
    other session [B]. *)
Lemma other_session_loc st A B lB :
  wf st = true -> A <> B -> conversation_histories st !! B = Some lB ->
  lB <> default (next_loc st) (conversation_histories st !! A) /\
  lB <> next_loc st.
Proof.
  intros Hwf Hne HB.
  destruct (wf_spec st Hwf B lB HB) as [Hlt Hinj].
  split; [|lia].
  destruct (conversation_histories st !! A) as [lA|] eqn:EA; simpl; [|lia].
  destruct (Hinj A lA EA); congruence.
Qed.

Lemma build_context_spec ts : build_context ts = spec_context ts.
Proof.
  unfold build_context. induction ts as [|t ts IH]; [done|].
  destruct ts as [|t' ts]; [done|].
  simpl in *. unfold render at 1. by rewrite IH.
Qed.

Lemma run_chat_roles st sid turns :
  session_ok st sid ->
  forallb is_success (snd (run_chat st sid turns)) = true ->
  map role (session_transcript (fst (run_chat st sid turns)) sid)
  = map role (session_transcript st sid) ++
    concat (replicate (length turns) ["user"; "assistant"]%string).
Proof.
  revert st. induction turns as [|t ts IH]; intros st Hok Hs; simpl.
  - by rewrite app_nil_r.
  - destruct (ti_model t (build_context (session_transcript st sid ++
                                          [user_turn (ti_message t)]))) as [r|c] eqn:Hm.
    + destruct (chat_success_step (ti_model t) st sid (ti_message t)
                  (ti_model_name t) r Hok Hm) as (Hr & HT & Hok').
      destruct (chat_endpoint _ st _) as [st1 resp] eqn:E1. simpl in *.
      destruct (run_chat st1 sid ts) as [st2 rs] eqn:E2. simpl in *.
      subst resp. rewrite E1, E2 in Hs. simpl in Hs.
      pose proof (IH st1 Hok') as IH'. rewrite E2 in IH'. simpl in IH'.
      rewrite (IH' Hs), HT, map_app. simpl. by rewrite <- app_assoc.
    + destruct (chat_failure_step (ti_model t) st sid (ti_message t)
                  (ti_model_name t) c Hok Hm) as (Hr & _).
      destruct (chat_endpoint _ st _) as [st1 resp] eqn:E1. simpl in *.
      destruct (run_chat st1 sid ts) as [st2 rs] eqn:E2. simpl in *.
      subst resp. rewrite E1, E2 in Hs. discriminate.
Qed.

(** ** The stores the program reaches are well formed *)

Lemma wf_intro st :
  (forall s l, conversation_histories st !! s = Some l ->
     (l < next_loc st)%N /\
     forall s' l', conversation_histories st !! s' = Some l' -> s = s' \/ l <> l') ->
  wf st = true.
Proof.
  intros H. unfold wf. apply bool_decide_eq_true_2.
  intros s l Hs. destruct (H s l Hs) as [Hlt Hinj]. split; [done|].
  intros s' l' Hs'. exact (Hinj s' l' Hs').
Qed.

Lemma wf_empty_store : wf empty_store = true.
Proof. apply wf_intro. intros s l Hs. simpl in Hs. by rewrite lookup_empty in Hs. Qed.

Lemma chat_endpoint_wf model st req :
  wf st = true -> wf (fst (chat_endpoint model st req)) = true.
Proof.
  intros Hwf.
  destruct req as [[sid|] [msg|] mn]; try by rewrite chat_endpoint_invalid by auto.
  pose proof (chat_endpoint_session model st sid msg mn (wf_session_ok st sid Hwf)) as Hs.
  cbv zeta in Hs.
  assert (Hh : (default (next_loc st) (conversation_histories st !! sid) <= next_loc st)%N).
  { destruct (conversation_histories st !! sid) eqn:E; simpl; [|lia].
    pose proof (wf_spec st Hwf sid _ E); lia. }
  destruct (model _); rewrite Hs; apply wf_intro; simpl.
  - intros s l Hsl.
    apply lookup_insert_Some in Hsl as [[<- <-]|[Hne Hsl]].
    + split; [lia|]. intros s' l' Hs'.
      apply lookup_insert_Some in Hs' as [[-> _]|[Hne' Hs']]; [by left|].
      right. destruct (other_session_loc st sid s' l' Hwf Hne' Hs'); congruence.
    + destruct (wf_spec st Hwf s l Hsl) as [Hlt Hinj]. split; [lia|].
      intros s' l' Hs'.
      apply lookup_insert_Some in Hs' as [[<- <-]|[Hne' Hs']].
      * right. by destruct (other_session_loc st sid s l Hwf Hne Hsl).
      * exact (Hinj s' l' Hs').
  - intros s l Hsl. destruct (wf_spec st Hwf s l Hsl) as [Hlt Hinj].
    split; [lia|exact Hinj].
Qed.

Lemma upload_media_wf st sid file :
  wf st = true -> wf (fst (upload_media st sid file)) = true.
Proof. intros Hwf. destruct sid, file as [f|]; simpl; try done. destruct (String.eqb _ _); [done|by destruct (file_read f)]. Qed.

(** ** The claims *)

(** C1, at the failing input: a model failure on session ["s1"] of an empty
    store leaves no trace of the user turn ["hello"], whereas the same failure
    on ["s1"] once it has a list (in [hello_store]) keeps the user turn in
    the stored transcript. *)
Lemma chat_failure_fresh_session_not_recorded :
  let st' := fst (chat_endpoint (fun _ => Raise "timeout"%string) empty_store
                    (s1_request "hello"%string)) in
  let st'' := fst (chat_endpoint (fun _ => Raise "timeout"%string) hello_store
                     (s1_request "how are you"%string)) in
  view st' !! "s1"%string = None /\ session_transcript st' "s1" = [] /\
  view st'' !! "s1"%string =
    Some [user_turn "hello"; assistant_turn "hi there"; user_turn "how are you"].
Proof. vm_compute. split; [|split]; reflexivity. Qed.

(** C2 (as the code does it).  A body without [session_id] or without
    [message] is rejected by request validation with a 422, before the
    handler runs, and the store is unchanged.  The handler does not check
    for empty strings: a request whose fields are present, even [""], never
    receives a 4xx. *)
Theorem chat_missing_field_rejected (model : model_t) (st : store) :
  (forall req : ChatRequest,
     (session_id req = None \/ message req = None) ->
     chat_endpoint model st req = (st, HTTPError 422 "Field required"%string)) /\
  (forall (sid msg : string) (mn : option string) (s : Z) (d : string),
     snd (chat_endpoint model st (mkChatRequest (Some sid) (Some msg) mn))
       = HTTPError s d -> s = 500%Z).
Proof.
  split.
  - intros req. apply chat_endpoint_invalid.
  - intros sid msg mn s d. rewrite chat_endpoint_unfold. cbv zeta.
    destruct (model _); simpl; congruence.
Qed.

(** C2 fails: empty strings pass, and the turn pair is stored under [""]. *)
Lemma chat_empty_fields_accepted :
  let res := chat_endpoint (fun _ => Reply "ok"%string) empty_store
               (mkChatRequest (Some ""%string) (Some ""%string) None) in
  snd res = ChatResponse "ok" [user_turn ""; assistant_turn "ok"] /\
  view (fst res) !! ""%string = Some [user_turn ""; assistant_turn "ok"].
Proof. vm_compute. split; reflexivity. Qed.

(** C3.  The context handed to [model.chat] is the transcript, including the
    new user turn, rendered ["{role}: {content}"] per turn and joined by
    newlines: the endpoint depends on the model only through its answer to
    that string, a model that echoes its input replies with exactly that
    string, and in the spec's scenario the context is
    ["user: hello\nassistant: hi there\nuser: how are you"]. *)
Theorem chat_context_serialization (st : store) (sid msg : string)
    (mn : option string) (Hwf : wf st = true) :
  let ctx := spec_context (session_transcript st sid ++ [user_turn msg]) in
  (forall model model' : model_t, model ctx = model' ctx ->
     chat_endpoint model st (mkChatRequest (Some sid) (Some msg) mn)
     = chat_endpoint model' st (mkChatRequest (Some sid) (Some msg) mn)) /\
  snd (chat_endpoint (fun c => Reply c) st (mkChatRequest (Some sid) (Some msg) mn))
    = ChatResponse ctx (session_transcript st sid ++
                          [user_turn msg; assistant_turn ctx]) /\
  snd (chat_endpoint (fun c => Reply c) hello_store (s1_request "how are you"%string))
    = ChatResponse ("user: hello" +:+ nl +:+ "assistant: hi there" +:+ nl +:+
                    "user: how are you")
        [user_turn "hello"; assistant_turn "hi there"; user_turn "how are you";
         assistant_turn ("user: hello" +:+ nl +:+ "assistant: hi there" +:+ nl +:+
                         "user: how are you")].
Proof.
  pose proof (wf_session_ok st sid Hwf) as Hok. cbv zeta.
  rewrite <- build_context_spec. split; [|split].
  - intros model model' Heq.
    pose proof (chat_endpoint_session model st sid msg mn Hok) as H1.
    pose proof (chat_endpoint_session model' st sid msg mn Hok) as H2.
    cbv zeta in H1, H2. rewrite Heq in H1.
    destruct (model' (build_context (session_transcript st sid ++ [user_turn msg])));
      congruence.
  - by destruct (chat_success_step (fun c => Reply c) st sid msg mn _ Hok eq_refl)
      as (Hr & _).
  - vm_compute. reflexivity.
Qed.

Lemma chat_context_serialization_witness :
  wf hello_store = true /\
  snd (chat_endpoint (fun c => Reply c) hello_store (s1_request "how are you"%string))
  = ChatResponse (spec_context [user_turn "hello"; assistant_turn "hi there";
                                user_turn "how are you"])
      [user_turn "hello"; assistant_turn "hi there"; user_turn "how are you";
       assistant_turn (spec_context [user_turn "hello"; assistant_turn "hi there";
                                     user_turn "how are you"])].
Proof.
  split; [vm_compute; reflexivity|].
  exact (proj1 (proj2 (chat_context_serialization hello_store "s1" "how are you" None
                         ltac:(vm_compute; reflexivity)))).
Defined.

(** C4.  After [N] requests on a session with no entry in the store, all of
    them answered with a 200, the session's transcript has [2 * N] turns whose
    roles are user, assistant, user, assistant, ... *)
Theorem chat_fresh_session_alternates (st : store) (sid : string)
    (turns : list turn_input)
    (Hfresh : conversation_histories st !! sid = None)
    (Hsucc : forallb is_success (snd (run_chat st sid turns)) = true) :
  let T := session_transcript (fst (run_chat st sid turns)) sid in
  length T = 2 * length turns /\
  map role T = concat (replicate (length turns) ["user"; "assistant"]%string).
Proof.
  assert (Hok : session_ok st sid) by (intros l Hl; congruence).
  pose proof (run_chat_roles st sid turns Hok Hsucc) as Hr.
  assert (H0 : session_transcript st sid = []) by (unfold session_transcript; by rewrite Hfresh).
  rewrite H0 in Hr. simpl in Hr. cbv zeta. split; [|exact Hr].
  rewrite <- (length_map role), Hr, length_concat.
  clear. induction (length turns) as [|n IH]; simpl; lia.
Qed.

Lemma chat_fresh_session_alternates_witness :
  conversation_histories hello_store !! "s2"%string = None /\
  forallb is_success (snd (run_chat hello_store "s2" sample_turns)) = true /\
  length (session_transcript (fst (run_chat hello_store "s2" sample_turns)) "s2") = 6.
Proof.
  split; [vm_compute; reflexivity|]. split; [vm_compute; reflexivity|].
  exact (proj1 (chat_fresh_session_alternates hello_store "s2" sample_turns
                  ltac:(vm_compute; reflexivity) ltac:(vm_compute; reflexivity))).
Defined.

(** C5.  A 200 response carries the model's reply and the full transcript:
    the previous one, then the user turn, then the assistant turn holding the
    reply; the store holds exactly that transcript afterwards. *)
Theorem chat_success_returns_transcript (model : model_t) (st : store)
    (req : ChatRequest) (r : string) (conv : list Message)
    (Hwf : wf st = true)
    (Hres : snd (chat_endpoint model st req) = ChatResponse r conv) :
  exists sid msg,
    session_id req = Some sid /\ message req = Some msg /\
    model (build_context (session_transcript st sid ++ [user_turn msg])) = Reply r /\
    conv = session_transcript st sid ++ [user_turn msg; assistant_turn r] /\
    session_transcript (fst (chat_endpoint model st req)) sid = conv.
Proof.
  destruct req as [[sid|] [msg|] mn];
    [|rewrite chat_endpoint_invalid in Hres by auto; discriminate..].
  exists sid, msg. simpl. split; [done|]. split; [done|].
  pose proof (wf_session_ok st sid Hwf) as Hok.
  destruct (model (build_context (session_transcript st sid ++ [user_turn msg])))
    as [r'|c] eqn:Hm.
  - destruct (chat_success_step model st sid msg mn r' Hok Hm) as (Hr & HT & _).
    rewrite Hr in Hres. injection Hres as <- <-. done.
  - destruct (chat_failure_step model st sid msg mn c Hok Hm) as (Hr & _).
    rewrite Hr in Hres. discriminate.
Qed.

Lemma chat_success_returns_transcript_witness :
  exists sid msg,
    session_id (s1_request "how are you") = Some sid /\
    message (s1_request "how are you") = Some msg /\
    (fun _ => Reply "fine") (build_context (session_transcript hello_store sid ++
                                            [user_turn msg])) = Reply "fine" /\
    [user_turn "hello"; assistant_turn "hi there"; user_turn "how are you";
     assistant_turn "fine"]
      = session_transcript hello_store sid ++ [user_turn msg; assistant_turn "fine"] /\
    session_transcript (fst (chat_endpoint (fun _ => Reply "fine") hello_store
                               (s1_request "how are you"))) sid
      = [user_turn "hello"; assistant_turn "hi there"; user_turn "how are you";
         assistant_turn "fine"].
Proof.
  apply (chat_success_returns_transcript (fun _ => Reply "fine"%string) hello_store
           (s1_request "how are you") "fine");
    vm_compute; reflexivity.
Defined.

(** C6.  When [model.chat] raises, the caller gets a 500 whose detail ends
    with the model's error message, and the session's transcript gains no
    assistant turn: it is the previous one, possibly followed by the user
    turn. *)
Theorem chat_model_error_detail (model : model_t) (st : store)
    (sid msg : string) (mn : option string) (c : string)
    (Hwf : wf st = true)
    (Hm : model (build_context (session_transcript st sid ++ [user_turn msg])) = Raise c) :
  let res := chat_endpoint model st (mkChatRequest (Some sid) (Some msg) mn) in
  snd res = HTTPError 500 ("500: Model inference error: " +:+ c) /\
  (session_transcript (fst res) sid = session_transcript st sid ++ [user_turn msg] \/
   session_transcript (fst res) sid = session_transcript st sid).
Proof.
  destruct (chat_failure_step model st sid msg mn c (wf_session_ok st sid Hwf) Hm)
    as (Hr & Hh & Hheap & _).
  cbv zeta. split; [done|].
  set (T0 := session_transcript st sid).
  unfold session_transcript. rewrite Hh, Hheap.
  destruct (conversation_histories st !! sid) as [l|] eqn:E; simpl.
  - left. by rewrite lookup_insert_eq.
  - right. unfold T0, session_transcript. by rewrite E.
Qed.

Lemma chat_model_error_detail_witness :
  wf hello_store = true /\
  snd (chat_endpoint (fun _ => Raise "connection refused"%string) hello_store
         (s1_request "how are you"))
  = HTTPError 500 "500: Model inference error: connection refused".
Proof.
  split; [vm_compute; reflexivity|].
  exact (proj1 (chat_model_error_detail (fun _ => Raise "connection refused"%string)
                  hello_store "s1" "how are you" None "connection refused"
                  ltac:(vm_compute; reflexivity) eq_refl)).
Defined.

(** C7.  A request for session [A] leaves what the store holds for any other
    session [B] as it was, whether the request succeeds or fails. *)
Theorem chat_other_session_untouched (model : model_t) (st : store)
    (req : ChatRequest) (A B : string)
    (Hwf : wf st = true) (HA : session_id req = Some A) (Hne : A <> B) :
  view (fst (chat_endpoint model st req)) !! B = view st !! B.
Proof.
  destruct req as [sid [msg|] mn]; simpl in HA; subst sid;
    [|by rewrite chat_endpoint_invalid by auto].
  pose proof (chat_endpoint_session model st A msg mn (wf_session_ok st A Hwf)) as Hs.
  cbv zeta in Hs.
  destruct (model _); rewrite Hs; unfold view; simpl; rewrite !lookup_omap;
    [rewrite lookup_insert_ne by done|];
    destruct (conversation_histories st !! B) as [lB|] eqn:EB; simpl; try done;
    destruct (other_session_loc st A B lB Hwf Hne EB);
    rewrite !lookup_insert_ne by done; done.
Qed.

Lemma chat_other_session_untouched_witness :
  wf hello_store = true /\
  view (fst (chat_endpoint (fun _ => Reply "hey"%string) hello_store
               (mkChatRequest (Some "s2"%string) (Some "hi"%string) None)))
    !! "s1"%string
  = view hello_store !! "s1"%string.
Proof.
  split; [vm_compute; reflexivity|].
  apply (chat_other_session_untouched _ hello_store _ "s2" "s1");
    [vm_compute; reflexivity | reflexivity | discriminate].
Defined.

(** C8.  [model_name] has no effect: two requests that differ only in it
    give the same response and the same store. *)
Theorem chat_model_name_ignored (model : model_t) (st : store)
    (sid msg mn1 mn2 : option string) :
  chat_endpoint model st (mkChatRequest sid msg mn1)
  = chat_endpoint model st (mkChatRequest sid msg mn2).
Proof.
  destruct sid as [sid|], msg as [msg|];
    try by rewrite !chat_endpoint_invalid by (simpl; auto).
  by rewrite !chat_endpoint_unfold.
Qed.

(** C9.  [POST /upload] never changes the store. *)
Theorem upload_keeps_store (st : store) (sid : option string)
    (file : option UploadFile) :
  fst (upload_media st sid file) = st.
Proof.
  unfold upload_media.
  destruct sid, file as [f|]; try done. destruct (String.eqb _ _); [done|by destruct (file_read f)].
Qed.

(** C10.  When the model fails on a session that has no entry in the store,
    no entry is created and the store looks exactly as before. *)
Theorem chat_failure_fresh_atomic (model : model_t) (st : store)
    (sid msg : string) (mn : option string) (c : string)
    (Hwf : wf st = true)
    (Hfresh : conversation_histories st !! sid = None)
    (Hm : model (build_context [user_turn msg]) = Raise c) :
  let st' := fst (chat_endpoint model st (mkChatRequest (Some sid) (Some msg) mn)) in
  conversation_histories st' = conversation_histories st /\
  view st' = view st /\
  view st' !! sid = None.
Proof.
  assert (H0 : session_transcript st sid = []) by (unfold session_transcript; by rewrite Hfresh).
  assert (Hm' : model (build_context (session_transcript st sid ++ [user_turn msg]))
                = Raise c) by (by rewrite H0).
  destruct (chat_failure_step model st sid msg mn c (wf_session_ok st sid Hwf) Hm')
    as (_ & Hh & Hheap & Hn).
  cbv zeta.
  destruct (fst (chat_endpoint model st _)) as [h' hp' n'] eqn:E.
  simpl in Hh, Hheap, Hn. subst h' hp' n'.
  rewrite Hfresh; simpl.
  pose proof (view_fresh_update st sid (session_transcript st sid ++ [user_turn msg]) []
                (N.succ (next_loc st)) Hwf Hfresh) as Hv.
  split; [done|]. split; [exact Hv|].
  rewrite Hv. unfold view. by rewrite lookup_omap, Hfresh.
Qed.

Lemma chat_failure_fresh_atomic_witness :
  wf hello_store = true /\
  view (fst (chat_endpoint (fun _ => Raise "timeout"%string) hello_store
               (mkChatRequest (Some "s2"%string) (Some "hi"%string) None)))
  = view hello_store.
Proof.
  split; [vm_compute; reflexivity|].
  exact (proj1 (proj2 (chat_failure_fresh_atomic (fun _ => Raise "timeout"%string)
                         hello_store "s2" "hi" None "timeout"
                         ltac:(vm_compute; reflexivity) ltac:(vm_compute; reflexivity)
                         eq_refl))).
Defined.

(** ** Further properties of the handlers *)

Lemma upload_media_store st sid file : fst (upload_media st sid file) = st.
Proof. destruct sid, file as [f|]; simpl; try done. destruct (String.eqb _ _); [done|by destruct (file_read f)]. Qed.

Lemma string_app_assoc (a b c : string) : (a +:+ b) +:+ c = a +:+ (b +:+ c).
Proof. induction a as [|x a IH]; [reflexivity | exact (f_equal (String x) IH)]. Qed.

Lemma view_lookup_transcript st k T :
  view st !! k = Some T -> session_transcript st k = T.
Proof.
  unfold view, session_transcript. rewrite lookup_omap.
  destruct (conversation_histories st !! k); simpl; [by intros ->|done].
Qed.

(** The observable store after a successful request. *)
Lemma view_success_update st sid v n :
  wf st = true ->
  view (mkStore (<[sid := default (next_loc st) (conversation_histories st !! sid)]>
                   (conversation_histories st))
                (<[default (next_loc st) (conversation_histories st !! sid) := v]>
                   (<[next_loc st := []]> (heap st))) n)
  = <[sid := v]> (view st).
Proof.
  intros Hwf. apply map_eq. intros k.
  destruct (decide (k = sid)) as [->|Hne].
  - rewrite lookup_insert_eq. unfold view; simpl.
    rewrite lookup_omap, lookup_insert_eq; simpl. by rewrite lookup_insert_eq.
  - rewrite lookup_insert_ne by done. unfold view; simpl.
    rewrite !lookup_omap, lookup_insert_ne by done.
    destruct (conversation_histories st !! k) as [lk|] eqn:E; simpl; [|done].
    destruct (other_session_loc st sid k lk Hwf (not_eq_sym Hne) E).
    rewrite !lookup_insert_ne by done. done.
Qed.

(** One request leaves every other session's entry as it was. *)
Lemma chat_view_other model st req A B :
  wf st = true -> session_id req = Some A -> A <> B ->
  view (fst (chat_endpoint model st req)) !! B = view st !! B.
Proof.
  intros Hwf HA Hne.
  destruct req as [sid [msg|] mn]; simpl in HA; subst sid;
    [|by rewrite chat_endpoint_invalid by auto].
  pose proof (chat_endpoint_session model st A msg mn (wf_session_ok st A Hwf)) as Hs.
  cbv zeta in Hs.
  destruct (model _); rewrite Hs; simpl.
  - rewrite view_success_update by done. by rewrite lookup_insert_ne.
  - destruct (conversation_histories st !! A) as [lA|] eqn:EA.
    + simpl. rewrite (view_existing_update st A lA) by done. by rewrite lookup_insert_ne.
    + simpl. by rewrite (view_fresh_update st A) by done.
Qed.

(** A failed request on a session that has a list: the list gains the user
    turn, and the session keeps its list. *)
Lemma chat_failure_existing_step model st sid msg mn c :
  session_ok st sid -> is_Some (conversation_histories st !! sid) ->
  model (build_context (session_transcript st sid ++ [user_turn msg])) = Raise c ->
  let st' := fst (chat_endpoint model st (mkChatRequest (Some sid) (Some msg) mn)) in
  session_transcript st' sid = session_transcript st sid ++ [user_turn msg] /\
  session_ok st' sid /\ is_Some (conversation_histories st' !! sid).
Proof.
  intros Hok [l Hl] Hm st'.
  destruct (chat_failure_step model st sid msg mn c Hok Hm) as (_ & Hh & Hheap & Hn).
  unfold st' in *. clear st'.
  split; [|split].
  - unfold session_transcript at 1. rewrite Hh, Hheap, Hl. simpl.
    by rewrite lookup_insert_eq.
  - intros l' Hl'. rewrite Hh in Hl'. rewrite Hn. specialize (Hok l' Hl'). lia.
  - rewrite Hh, Hl. by eexists.
Qed.

(** X1.  Whatever sequence of chat and upload requests the process serves
    from its start, every session points to an allocated-below-[next_loc]
    list of its own: no two sessions ever share a list. *)
Theorem reachable_store_wf (ops : list op) : wf (run_ops empty_store ops) = true.
Proof.
  unfold run_ops. generalize empty_store wf_empty_store.
  induction ops as [|o ops IH]; intros st Hwf; simpl; [done|].
  apply IH. destruct o; simpl; [apply chat_endpoint_wf | apply upload_media_wf]; done.
Qed.

(** X2.  A successful request changes the observable store in exactly one
    place: its own session now holds the returned conversation. *)
Theorem chat_success_view (model : model_t) (st : store) (req : ChatRequest)
    (r : string) (conv : list Message)
    (Hwf : wf st = true)
    (Hres : snd (chat_endpoint model st req) = ChatResponse r conv) :
  exists sid, session_id req = Some sid /\
    view (fst (chat_endpoint model st req)) = <[sid := conv]> (view st).
Proof.
  destruct req as [[sid|] [msg|] mn];
    [|rewrite chat_endpoint_invalid in Hres by auto; discriminate..].
  exists sid. split; [done|].
  pose proof (chat_endpoint_session model st sid msg mn (wf_session_ok st sid Hwf)) as Hs.
  cbv zeta in Hs.
  destruct (model _); rewrite Hs in Hres |- *; simpl in Hres; [|discriminate].
  injection Hres as <- <-. simpl. by rewrite view_success_update.
Qed.

Lemma chat_success_view_witness :
  exists sid, session_id (s1_request "how are you") = Some sid /\
    view (fst (chat_endpoint (fun _ => Reply "fine"%string) hello_store
                 (s1_request "how are you")))
    = <[sid := [user_turn "hello"; assistant_turn "hi there";
                user_turn "how are you"; assistant_turn "fine"]]> (view hello_store).
Proof.
  apply (chat_success_view (fun _ => Reply "fine"%string) hello_store
           (s1_request "how are you") "fine");
    vm_compute; reflexivity.
Defined.

(** X3.  Transcripts are append-only: after any chat or upload request,
    every session that had a transcript still has one, which extends the
    old one. *)
Theorem step_op_append_only (st : store) (o : op) (k : string) (T : list Message)
    (Hwf : wf st = true) (Hk : view st !! k = Some T) :
  exists T', view (step_op st o) !! k = Some T' /\ T `prefix_of` T'.
Proof.
  destruct o as [model req|sid file]; simpl;
    [|rewrite upload_media_store; by exists T].
  destruct req as [[sid|] [msg|] mn]; try (rewrite chat_endpoint_invalid by auto; by exists T).
  destruct (decide (k = sid)) as [->|Hne];
    [|rewrite (chat_view_other model st (mkChatRequest (Some sid) (Some msg) mn) sid k Hwf eq_refl (not_eq_sym Hne)); by exists T].
  pose proof (view_lookup_transcript st sid T Hk) as HT.
  pose proof (chat_endpoint_session model st sid msg mn (wf_session_ok st sid Hwf)) as Hs.
  cbv zeta in Hs. rewrite HT in Hs.
  destruct (model _); rewrite Hs; simpl.
  - rewrite view_success_update by done. rewrite lookup_insert_eq.
    eexists; split; [done|]. rewrite <- app_assoc. by eexists.
  - unfold view in Hk. rewrite lookup_omap in Hk.
    destruct (conversation_histories st !! sid) as [l|] eqn:E; simpl in Hk; [|done].
    simpl. rewrite (view_existing_update st sid l) by done. rewrite lookup_insert_eq.
    eexists; split; [done|]. by eexists.
Qed.

Lemma step_op_append_only_witness :
  exists T', view (step_op hello_store
                     (OpChat (fun _ => Raise "timeout"%string) (s1_request "again")))
               !! "s1"%string = Some T' /\
             [user_turn "hello"; assistant_turn "hi there"] `prefix_of` T'.
Proof.
  apply (step_op_append_only hello_store _ "s1" [user_turn "hello"; assistant_turn "hi there"]);
    vm_compute; reflexivity.
Defined.

(** X4.  On a session that already has a list, a run of requests appends,
    per request, the user turn, followed by the assistant turn when the
    model replied: a failed request leaves its user turn without an answer,
    so the roles no longer alternate. *)
Theorem run_chat_existing_session (st : store) (sid : string)
    (turns : list turn_input)
    (Hwf : wf st = true) (Hex : is_Some (conversation_histories st !! sid)) :
  session_transcript (fst (run_chat st sid turns)) sid
  = session_transcript st sid ++
    concat (zip_with turn_record turns (snd (run_chat st sid turns))).
Proof.
  pose proof (wf_session_ok st sid Hwf) as Hok. clear Hwf.
  revert st Hok Hex. induction turns as [|t ts IH]; intros st Hok Hex; simpl.
  - by rewrite app_nil_r.
  - destruct (ti_model t (build_context (session_transcript st sid ++
                                          [user_turn (ti_message t)]))) as [r|c] eqn:Hm.
    + destruct (chat_success_step (ti_model t) st sid (ti_message t)
                  (ti_model_name t) r Hok Hm) as (Hr & HT & Hok').
      destruct (chat_endpoint _ st _) as [st1 resp] eqn:E1. simpl in *. subst resp.
      assert (Hex' : is_Some (conversation_histories st1 !! sid)).
      { pose proof (chat_endpoint_session (ti_model t) st sid (ti_message t)
                      (ti_model_name t) Hok) as Hs.
        cbv zeta in Hs. rewrite Hm, E1 in Hs. injection Hs as -> _.
        simpl. rewrite lookup_insert_eq. by eexists. }
      pose proof (IH st1 Hok' Hex') as IH'.
      destruct (run_chat st1 sid ts) as [st2 rs]. simpl in *.
      rewrite IH', HT. simpl. by rewrite <- app_assoc.
    + destruct (chat_failure_step (ti_model t) st sid (ti_message t)
                  (ti_model_name t) c Hok Hm) as (Hr & _).
      destruct (chat_failure_existing_step (ti_model t) st sid (ti_message t)
                  (ti_model_name t) c Hok Hex Hm) as (HT & Hok' & Hex').
      destruct (chat_endpoint _ st _) as [st1 resp] eqn:E1. simpl in *. subst resp.
      pose proof (IH st1 Hok' Hex') as IH'.
      destruct (run_chat st1 sid ts) as [st2 rs]. simpl in *.
      rewrite IH', HT. simpl. by rewrite <- app_assoc.
Qed.

(** A failed turn between two answered ones on session ["s1"]. *)
Lemma run_chat_existing_session_witness :
  session_transcript
    (fst (run_chat hello_store "s1"
            [mkTurnInput "how are you" None (fun _ => Raise "timeout");
             mkTurnInput "hello?" None (fun _ => Reply "sorry")]%string)) "s1"
  = [user_turn "hello"; assistant_turn "hi there"; user_turn "how are you";
     user_turn "hello?"; assistant_turn "sorry"].
Proof.
  rewrite (run_chat_existing_session hello_store "s1" _
             ltac:(vm_compute; reflexivity) ltac:(vm_compute; eexists; reflexivity)).
  vm_compute. reflexivity.
Defined.

(** X5.  The context grows by one line per turn: appending a turn to a
    non-empty transcript appends a newline and ["{role}: {content}"]. *)
Theorem build_context_snoc (T : list Message) (m : Message) :
  build_context (T ++ [m]) =
  match T with
  | [] => role m +:+ ": " +:+ content m
  | _ => build_context T +:+ nl +:+ role m +:+ ": " +:+ content m
  end.
Proof.
  unfold build_context. induction T as [|t T IH]; [done|].
  destruct T as [|t' T].
  - reflexivity.
  - change (map render ((t :: t' :: T) ++ [m]))
      with (render t :: map render ((t' :: T) ++ [m])).
    change (String.concat nl (render t :: map render ((t' :: T) ++ [m])))
      with (render t +:+ nl +:+ String.concat nl (map render ((t' :: T) ++ [m]))).
    rewrite IH.
    change (String.concat nl (map render (t :: t' :: T)))
      with (render t +:+ nl +:+ String.concat nl (map render (t' :: T))).
    by rewrite !string_app_assoc.
Qed.

(** X6.  The context does not determine the transcript: a turn whose
    content contains a newline followed by ["role: "] is serialized exactly
    like two turns, so the model cannot tell the two transcripts apart. *)
Theorem build_context_ambiguous (r1 r2 a b : string) :
  build_context [mkMessage r1 (a +:+ nl +:+ r2 +:+ ": " +:+ b)]
  = build_context [mkMessage r1 a; mkMessage r2 b] /\
  [mkMessage r1 (a +:+ nl +:+ r2 +:+ ": " +:+ b)] <> [mkMessage r1 a; mkMessage r2 b].
Proof.
  split; [|discriminate].
  unfold build_context, render. simpl. by rewrite !string_app_assoc.
Qed.

(** X7.  A request with both fields present succeeds exactly when the model
    replies to the context; otherwise it is answered with a 500. *)
Theorem chat_success_iff_model_replies (model : model_t) (st : store)
    (sid msg : string) (mn : option string) (Hwf : wf st = true) :
  (is_success (snd (chat_endpoint model st (mkChatRequest (Some sid) (Some msg) mn))) = true
   <-> exists r, model (build_context (session_transcript st sid ++ [user_turn msg])) = Reply r) /\
  (is_success (snd (chat_endpoint model st (mkChatRequest (Some sid) (Some msg) mn))) = false
   -> exists d, snd (chat_endpoint model st (mkChatRequest (Some sid) (Some msg) mn))
                = HTTPError 500 d).
Proof.
  pose proof (chat_endpoint_session model st sid msg mn (wf_session_ok st sid Hwf)) as Hs.
  cbv zeta in Hs.
  destruct (model _) as [r|c]; rewrite Hs; simpl.
  - split; [split; [by eexists|done]|discriminate].
  - split; [split; [discriminate|by intros [? ?]]|by eexists].
Qed.

Lemma chat_success_iff_model_replies_witness :
  is_success (snd (chat_endpoint (fun _ => Raise "down"%string) hello_store
                     (s1_request "how are you"))) = false /\
  exists d, snd (chat_endpoint (fun _ => Raise "down"%string) hello_store
                   (s1_request "how are you")) = HTTPError 500 d.
Proof.
  split; [vm_compute; reflexivity|].
  apply (proj2 (chat_success_iff_model_replies (fun _ => Raise "down"%string) hello_store
                  "s1" "how are you" None ltac:(vm_compute; reflexivity))).
  vm_compute; reflexivity.
Defined.

(** X8.  For a non-empty session id, the upload response depends on the
    file alone: neither the session id nor the store affects it. *)
Theorem upload_response_ignores_session (st1 st2 : store) (s1 s2 : string)
    (file : option UploadFile) (H1 : s1 <> ""%string) (H2 : s2 <> ""%string) :
  snd (upload_media st1 (Some s1) file) = snd (upload_media st2 (Some s2) file).
Proof.
  apply String.eqb_neq in H1, H2.
  destruct file as [f|]; simpl; [|done]. rewrite H1, H2. by destruct (file_read f).
Qed.

Lemma upload_response_ignores_session_witness :
  snd (upload_media empty_store (Some "s1"%string)
         (Some (mkUploadFile "a.png" (inl [Byte.x00; Byte.x01]))))
  = snd (upload_media hello_store (Some "s2"%string)
           (Some (mkUploadFile "a.png" (inl [Byte.x00; Byte.x01])))).
Proof. apply upload_response_ignores_session; discriminate. Defined.

(** X9.  Any run of requests on session [A] leaves what the store holds for
    another session [B] as it was. *)
Theorem run_chat_other_session (st : store) (A B : string) (turns : list turn_input)
    (Hwf : wf st = true) (Hne : A <> B) :
  view (fst (run_chat st A turns)) !! B = view st !! B.
Proof.
  revert st Hwf. induction turns as [|t ts IH]; intros st Hwf; simpl; [done|].
  pose proof (chat_view_other (ti_model t) st
                (mkChatRequest (Some A) (Some (ti_message t)) (ti_model_name t))
                A B Hwf eq_refl Hne) as H1.
  pose proof (chat_endpoint_wf (ti_model t) st
                (mkChatRequest (Some A) (Some (ti_message t)) (ti_model_name t)) Hwf) as Hwf1.
  destruct (chat_endpoint _ st _) as [st1 r]. simpl in *.
  pose proof (IH st1 Hwf1) as IH'.
  destruct (run_chat st1 A ts) as [st2 rs]. simpl in *. congruence.
Qed.

Lemma run_chat_other_session_witness :
  view (fst (run_chat hello_store "s2" sample_turns)) !! "s1"%string
  = view hello_store !! "s1"%string.
Proof.
  apply run_chat_other_session; [vm_compute; reflexivity | discriminate].
Defined.
